(** * FHIR views: a shallow embedding of [google/fhir/views/views.py]

    The development follows the Python module top to bottom.  Values that
    Python keeps in immutable containers (tuples, immutabledict) are lists;
    a dictionary is an association list in insertion order with unique
    keys; exceptions are an explicit [result] type; the objects the module
    imports from elsewhere (expression builders, the FHIRPath context, the
    schema utilities) are interfaces, given as type classes. *)

From Stdlib Require Import List String Ascii Bool Arith Lia.
Import ListNotations.
Open Scope string_scope.

(* ================================================================= *)
(** ** Python preliminaries *)

(** *** Strings *)

(** The line feed, written [\n] in the Python literals. *)
Definition LF : string := String (ascii_of_nat 10) EmptyString.

(** [s.endswith(suffix)]: some tail of [s] is [suffix]. *)
Fixpoint endswith (s suffix : string) : bool :=
  if String.eqb s suffix then true
  else match s with
       | EmptyString => false
       | String _ rest => endswith rest suffix
       end.

(** [s[:-1]]: all but the last character; the empty string stays empty. *)
Fixpoint slice_to_last (s : string) : string :=
  match s with
  | EmptyString => EmptyString
  | String _ EmptyString => EmptyString
  | String c rest => String c (slice_to_last rest)
  end.

(** [sep.join(parts)]. *)
Definition join (sep : string) (parts : list string) : string :=
  String.concat sep parts.

(** [x in xs] for a list of strings. *)
Fixpoint str_in (x : string) (xs : list string) : bool :=
  match xs with
  | [] => false
  | y :: rest => if String.eqb y x then true else str_in x rest
  end.

(** *** The [keyword] module *)

(** [keyword.kwlist] of CPython 3 (hard keywords only). *)
Definition kwlist : list string :=
  [ "False"; "None"; "True"; "and"; "as"; "assert"; "async"; "await";
    "break"; "class"; "continue"; "def"; "del"; "elif"; "else"; "except";
    "finally"; "for"; "from"; "global"; "if"; "import"; "in"; "is";
    "lambda"; "nonlocal"; "not"; "or"; "pass"; "raise"; "return"; "try";
    "while"; "with"; "yield" ].

Definition iskeyword (s : string) : bool := str_in s kwlist.

(** *** Exceptions *)

Inductive exc_class : Type :=
| ValueError
| AttributeError
| OtherException (name : string).

(** An exception argument is a string or a tuple of strings. *)
Inductive exc_arg : Type :=
| ArgStr (s : string)
| ArgTuple (items : list string).

Record exception : Type := Exc
  { exc_type : exc_class;
    exc_args : list exc_arg }.

Inductive result (A : Type) : Type :=
| Ok (a : A)
| Raise (e : exception).

Arguments Ok {A} a.
Arguments Raise {A} e.

Definition bind {A B : Type} (m : result A) (k : A -> result B) : result B :=
  match m with
  | Ok a => k a
  | Raise e => Raise e
  end.

Notation "x <- m ;; k" := (bind m (fun x => k))
  (at level 61, m at next level, right associativity).

(** The textual forms mentioned by an exception, flattened. *)
Definition exc_strings (e : exception) : list string :=
  flat_map (fun a => match a with
                     | ArgStr s => [s]
                     | ArgTuple items => items
                     end) (exc_args e).

(** *** Dictionaries *)

(** A [dict] with string keys: the items in insertion order. *)
Definition dict (V : Type) : Type := list (string * V).

(** [d.get(k)]. *)
Fixpoint dict_get {V : Type} (d : dict V) (k : string) : option V :=
  match d with
  | [] => None
  | (k', v) :: rest => if String.eqb k' k then Some v else dict_get rest k
  end.

(** [d[k] = v]: an existing key keeps its position. *)
Fixpoint dict_setitem {V : Type} (d : dict V) (k : string) (v : V) : dict V :=
  match d with
  | [] => [(k, v)]
  | (k', v') :: rest =>
      if String.eqb k' k then (k', v) :: rest
      else (k', v') :: dict_setitem rest k v
  end.

Definition dict_keys {V : Type} (d : dict V) : list string := map fst d.

(** [immutabledict.immutabledict(d)]: a fresh mapping filled from the
    items of [d], in order. *)
Definition immutabledict {V : Type} (d : dict V) : dict V :=
  fold_left (fun acc kv => dict_setitem acc (fst kv) (snd kv)) d [].

(** [l.append(x)]. *)
Definition list_append {A : Type} (l : list A) (x : A) : list A :=
  (l ++ [x])%list.

(** Truthiness of a container: it is non-empty. *)
Definition truthy {A : Type} (l : list A) : bool :=
  match l with
  | [] => false
  | _ :: _ => true
  end.

(* ================================================================= *)
(** ** The imported interfaces *)

(** [google.fhir.core.fhir_path.expressions] and [_fhir_path_data_types]:
    the expression builder as far as this module uses it. *)
Class Expressions : Type :=
  { Builder : Type;
    DataType : Type;
    Boolean : DataType;
    DataType_eq_dec : forall a b : DataType, {a = b} + {a <> b};
    (** [builder._node.return_type()] *)
    return_type : Builder -> DataType;
    (** [builder._node.to_fhir_path()] *)
    to_fhir_path : Builder -> string;
    (** [builder.fhir_path] *)
    fhir_path : Builder -> string;
    (** [getattr(builder, name)]: full attribute resolution *)
    Builder_getattr : Builder -> string -> result (option Builder);
    (** [builder.__getattr__(name)]: the hook called directly *)
    Builder___getattr__ : Builder -> string -> result Builder;
    (** [builder.idFor(resource_type)] *)
    idFor : Builder -> string -> result Builder;
    (** [builder.fhir_path_fields()] *)
    fhir_path_fields : Builder -> list string }.

(** [google.fhir.core.fhir_path.context]. *)
Class Context : Type :=
  { FhirPathContext : Type;
    StructureDefinition : Type;
    get_structure_definition :
      FhirPathContext -> string -> result StructureDefinition;
    (** [structdef.id.value] *)
    structdef_id_value : StructureDefinition -> string }.

(** [google.fhir.core.fhir_path._utils]. *)
Class Utils `{Context} : Type :=
  { get_patient_reference_element_paths :
      StructureDefinition -> list string }.

(** [google.fhir.core.fhir_path._evaluation] and
    [google.fhir.r4.primitive_handler]: the builder rooted at a structure,
    [Builder(RootMessageNode(context, StructureDataType(structdef)), handler)]. *)
Class Evaluation `{Expressions} `{Context} : Type :=
  { PrimitiveHandler : Type;
    root_message_builder :
      FhirPathContext -> StructureDefinition -> PrimitiveHandler -> Builder }.

(** [dir(type(self))] for a View: the names the class itself declares. *)
Class Introspection : Type :=
  { dir_type_View : list string }.

(* ================================================================= *)
(** ** class View *)

Section ViewModel.

Context {E : Expressions} {C : Context} {U : Utils} {I : Introspection}.

(** The five attributes assigned by [View.__init__]. *)
Record View : Type := View_init
  { _structdef_url : string;
    _root_builder : Builder;
    _context : FhirPathContext;
    _fields : dict Builder;
    _constraints : list Builder }.

(** [View.select] *)
Definition select (self : View) (fields : dict Builder) : View :=
  View_init (_structdef_url self) (_root_builder self) (_context self)
            (immutabledict fields) (_constraints self).

(** The [for] loop of [View.where]: the first constraint whose result
    type differs from Boolean raises. *)
Fixpoint check_constraints (constraints : list Builder) : result unit :=
  match constraints with
  | [] => Ok tt
  | constraint :: rest =>
      if DataType_eq_dec (return_type constraint) Boolean
      then check_constraints rest
      else Raise (Exc ValueError
                      [ArgTuple
                         ["view `where` expressions must be boolean predicates";
                          " got `" ++ to_fhir_path constraint ++ "`"]])
  end.

(** [View.where] *)
Definition where_ (self : View) (constraints : list Builder) : result View :=
  _ <- check_constraints constraints ;;
  Ok (View_init (_structdef_url self) (_root_builder self) (_context self)
                (_fields self) (_constraints self ++ constraints)%list).

(** The lookup key computed on entry to [View.__getattr__]. *)
Definition lookup_key (name : string) : string :=
  if endswith name "_" && iskeyword (slice_to_last name)
  then slice_to_last name
  else name.

(** [View.__getattr__] *)
Definition __getattr__ (self : View) (name : string) : result Builder :=
  let lookup := lookup_key name in
  expression <-
    (if truthy (_fields self)
     then Ok (dict_get (_fields self) lookup)
     else Builder_getattr (_root_builder self) lookup) ;;
  match expression with
  | None => Raise (Exc AttributeError [ArgStr ("No such field " ++ name)])
  | Some e => Ok e
  end.

(** [View.__dir__] *)
Definition __dir__ (self : View) : list string :=
  let fields :=
    if truthy (_fields self)
    then dict_keys (_fields self)
    else fhir_path_fields (_root_builder self) in
  (fields ++ dir_type_View)%list.

(** [View.get_structdef_url] *)
Definition get_structdef_url (self : View) : string := _structdef_url self.

(** [View.get_patient_id_expression]. The source tests [not patients]
    and later reads [patients[0]]; the match below is both, the head being
    read only on the non-empty branch. *)
Definition get_patient_id_expression (self : View) : result (option Builder) :=
  structdef <- get_structure_definition (_context self) (_structdef_url self) ;;
  if String.eqb (structdef_id_value structdef) "Patient"
  then Builder_getattr (_root_builder self) "id"
  else
    let patients := get_patient_reference_element_paths structdef in
    match patients with
    | [] => Ok None
    | first :: _ =>
        let patient_ref :=
          if str_in "subject" patients then "subject" else first in
        field <- Builder___getattr__ (_root_builder self) patient_ref ;;
        expression <- idFor field "patient" ;;
        Ok (Some expression)
    end.

(** [View.get_select_expressions] *)
Definition get_select_expressions (self : View) : dict Builder := _fields self.

(** [View.get_constraint_expressions] *)
Definition get_constraint_expressions (self : View) : list Builder :=
  _constraints self.

(** [View.get_fhir_path_context] *)
Definition get_fhir_path_context (self : View) : FhirPathContext :=
  _context self.

(** [View.__str__]: the two accumulation loops, then the two formats. *)
Definition __str__ (self : View) : string :=
  let select_strings :=
    fold_left
      (fun acc item =>
         list_append acc ("  " ++ fst item ++ ": " ++ fhir_path (snd item)))
      (get_select_expressions self) [] in
  let where_strings :=
    fold_left
      (fun acc builder => list_append acc ("  " ++ fhir_path builder))
      (get_constraint_expressions self) [] in
  if negb (truthy where_strings)
  then "View<" ++ _structdef_url self ++ ".select(" ++ LF
         ++ join ("," ++ LF) select_strings ++ LF ++ ")>"
  else "View<" ++ _structdef_url self ++ ".select(" ++ LF
         ++ join ("," ++ LF) select_strings ++ LF
         ++ ").where(" ++ LF ++ join ("," ++ LF) where_strings ++ LF ++ ")>".

(** [View.__repr__] *)
Definition __repr__ (self : View) : string := __str__ self.

(** *** Objects

    A View is a Python object: [select] and [where] are called on a
    reference, and the [View(...)] expression they end with allocates. The
    store holds the attribute record of every View object; a reference is
    its position. *)

Definition ref : Type := nat.
Definition store : Type := list View.

(** [View(...)]: a new object after all existing ones. *)
Definition new_View (h : store) (v : View) : store * ref :=
  ((h ++ [v])%list, List.length h).

(** [self.select(fields)] on the object at [self]; [None] when [self] is
    not a reference into the store. *)
Definition call_select (h : store) (self : ref) (fields : dict Builder)
  : option (store * ref) :=
  match nth_error h self with
  | None => None
  | Some v => Some (new_View h (select v fields))
  end.

(** [self.where] with the given constraints on the object at [self]: a raised
    exception leaves before the constructor is reached. *)
Definition call_where (h : store) (self : ref) (constraints : list Builder)
  : option (store * result ref) :=
  match nth_error h self with
  | None => None
  | Some v =>
      match where_ v constraints with
      | Raise e => Some (h, Raise e)
      | Ok v' => let (h', r) := new_View h v' in Some (h', Ok r)
      end
  end.

End ViewModel.

Arguments View {E C}.
Arguments store {E C}.

(* ================================================================= *)
(** ** class Views *)

Section ViewsModel.

Context {E : Expressions} {C : Context} {V : Evaluation}.

(** The two attributes assigned by [Views.__init__]. *)
Record Views : Type := Views_init
  { Views_context : FhirPathContext;
    Views_handler : PrimitiveHandler }.

(** [Views.expression_for] *)
Definition expression_for (self : Views) (structdef_url : string)
  : result Builder :=
  structdef <- get_structure_definition (Views_context self) structdef_url ;;
  Ok (root_message_builder (Views_context self) structdef (Views_handler self)).

(** [Views.view_of] *)
Definition view_of (self : Views) (structdef_url : string) : result View :=
  builder <- expression_for self structdef_url ;;
  Ok (View_init structdef_url builder (Views_context self)
                (immutabledict []) []).

End ViewsModel.

(* ================================================================= *)
(** ** Vocabulary of the statements

    The two exceptions the module raises, and the documented rendering
    template, written out once so that the theorems can name them. *)

Section Vocabulary.

Context {E : Expressions} {C : Context}.

(** The unknown-attribute condition, naming the requested attribute. *)
Definition unknown_attribute (name : string) : exception :=
  Exc AttributeError [ArgStr ("No such field " ++ name)].

(** The invalid-constraint condition, naming the constraint's rendering. *)
Definition invalid_constraint (constraint : Builder) : exception :=
  Exc ValueError
      [ArgTuple ["view `where` expressions must be boolean predicates";
                 " got `" ++ to_fhir_path constraint ++ "`"]].

(** One line of the select clause and one of the where clause. *)
Definition select_line (item : string * Builder) : string :=
  "  " ++ fst item ++ ": " ++ fhir_path (snd item).

Definition where_line (builder : Builder) : string :=
  "  " ++ fhir_path builder.

(** The documented template: the select clause always, the where clause
    between it and the closing bracket when there are constraints. *)
Definition select_clause (v : View) : string :=
  ".select(" ++ LF ++ join ("," ++ LF) (map select_line (_fields v))
             ++ LF ++ ")".

Definition where_clause (v : View) : string :=
  ".where(" ++ LF ++ join ("," ++ LF) (map where_line (_constraints v))
            ++ LF ++ ")".

Definition view_template (v : View) : string :=
  "View<" ++ _structdef_url v ++ select_clause v
          ++ (if truthy (_constraints v) then where_clause v else "")
          ++ ">".

End Vocabulary.

(* ================================================================= *)
(** ** Views built by composition

    The views a caller can reach from a starting view with the two
    composition methods: [select] always, [where] when it returns. *)

Section DerivedViews.

Context {E : Expressions} {C : Context}.

Inductive derived (v0 : View) : View -> Prop :=
| derived_root : derived v0 v0
| derived_select (v : View) (fields : dict Builder) :
    derived v0 v -> derived v0 (select v fields)
| derived_where (v v' : View) (constraints : list Builder) :
    derived v0 v -> where_ v constraints = Ok v' -> derived v0 v'.

(** A key of the form keyword-plus-underscore. *)
Definition escaped_keyword (key : string) : Prop :=
  exists k, key = k ++ "_" /\ iskeyword k = true.

End DerivedViews.

(* ================================================================= *)
(** ** A small instance of the interfaces

    Paths over a four-resource schema, enough to run the definitions
    above on concrete views. *)

Module Demo.

Inductive expr : Type :=
| Root (resource : string)
| Field (parent : expr) (name : string)
| IdFor (parent : expr) (resource : string)
| Exists (parent : expr).

Inductive dtype : Type :=
| TBoolean
| TString
| TStructure.

Definition dtype_eq_dec (a b : dtype) : {a = b} + {a <> b}.
Proof. decide equality. Defined.

Definition schema_fields : list string :=
  ["id"; "active"; "name"; "class"; "subject"; "performer"; "status"].

Fixpoint render (e : expr) : string :=
  match e with
  | Root resource => resource
  | Field parent name => render parent ++ "." ++ name
  | IdFor parent resource => render parent ++ ".idFor('" ++ resource ++ "')"
  | Exists parent => render parent ++ ".exists()"
  end.

Definition type_of (e : expr) : dtype :=
  match e with
  | Root _ => TStructure
  | Field _ name => if String.eqb name "active" then TBoolean else TString
  | IdFor _ _ => TString
  | Exists _ => TBoolean
  end.

Definition resolve (e : expr) (name : string) : result expr :=
  if str_in name schema_fields then Ok (Field e name)
  else Raise (Exc AttributeError [ArgStr name]).

#[export] Instance expressions : Expressions :=
  {| Builder := expr;
     DataType := dtype;
     Boolean := TBoolean;
     DataType_eq_dec := dtype_eq_dec;
     return_type := type_of;
     to_fhir_path := render;
     fhir_path := render;
     Builder_getattr := fun e name => x <- resolve e name ;; Ok (Some x);
     Builder___getattr__ := resolve;
     idFor := fun e resource => Ok (IdFor e resource);
     fhir_path_fields := fun _ => schema_fields |}.

Definition known_resources : list string :=
  ["Patient"; "Observation"; "Procedure"; "Organization"].

#[export] Instance context : Context :=
  {| FhirPathContext := unit;
     StructureDefinition := string;
     get_structure_definition := fun _ url =>
       if str_in url known_resources then Ok url
       else Raise (Exc (OtherException "KeyError") [ArgStr url]);
     structdef_id_value := fun structdef => structdef |}.

#[export] Instance utils : Utils :=
  {| get_patient_reference_element_paths := fun structdef =>
       if String.eqb structdef "Observation" then ["subject"; "performer"]
       else if String.eqb structdef "Procedure" then ["performer"; "subject"]
       else if String.eqb structdef "Patient" then ["link"]
       else [] |}.

(** A second enumeration, disagreeing with [utils] everywhere. *)
Definition utils_alt : Utils :=
  {| get_patient_reference_element_paths := fun _ => ["performer"] |}.

#[export] Instance evaluation : Evaluation :=
  {| PrimitiveHandler := unit;
     root_message_builder := fun _ structdef _ => Root structdef |}.

#[export] Instance introspection : Introspection :=
  {| dir_type_View := ["select"; "where"; "get_patient_id_expression"] |}.

Definition views : Views := Views_init tt tt.

Definition pat : View := View_init "Patient" (Root "Patient") tt [] [].
Definition obs : View := View_init "Observation" (Root "Observation") tt [] [].
Definition proc : View := View_init "Procedure" (Root "Procedure") tt [] [].
Definition org : View :=
  View_init "Organization" (Root "Organization") tt [] [].

Definition active : expr := Field (Root "Patient") "active".
Definition name : expr := Field (Root "Patient") "name".
Definition has_name : expr := Exists name.

Definition named_if_active : View :=
  View_init "Patient" (Root "Patient") tt [("name", name)] [active].

End Demo.

(** More views over the same instance. *)
Module DemoViews.

(** A selection whose only key is an escaped keyword. *)
Definition escaped : View :=
  select Demo.pat [("class_", Demo.name)].

(** A selection of two fields followed by two constraints. *)
Definition two_fields : View :=
  select Demo.pat [("name", Demo.name); ("active", Demo.active)].

Definition composed : View :=
  View_init (E := Demo.expressions) (C := Demo.context)
            "Patient" (Demo.Root "Patient") tt
            [("name", Demo.name); ("active", Demo.active)]
            [Demo.active; Demo.has_name].

End DemoViews.

(* ================================================================= *)
(** ** Facts about the Python preliminaries *)

Lemma str_in_In (x : string) (xs : list string) :
  str_in x xs = true <-> In x xs.
Proof.
  induction xs as [|y rest IH]; simpl.
  - split; [discriminate | contradiction].
  - destruct (String.eqb_spec y x) as [Heq|Hne].
    + split; auto.
    + rewrite IH. split; [auto | intros [H|H]; [contradiction | exact H]].
Qed.

Lemma endswith_suffix (s suffix : string) :
  endswith s suffix = true <-> exists prefix, s = prefix ++ suffix.
Proof.
  induction s as [|c rest IH]; cbn [endswith].
  - destruct (String.eqb_spec "" suffix) as [Heq|Hne].
    + split; [intros _; exists ""; subst; reflexivity | reflexivity].
    + split; [discriminate |].
      intros [prefix Hp]. destruct prefix; simpl in Hp.
      * contradiction.
      * discriminate.
  - destruct (String.eqb_spec (String c rest) suffix) as [Heq|Hne].
    + split; [intros _; exists ""; subst; reflexivity | reflexivity].
    + rewrite IH. split.
      * intros [prefix Hp]. exists (String c prefix). simpl. now rewrite Hp.
      * intros [prefix Hp]. destruct prefix as [|c' prefix]; simpl in Hp.
        -- contradiction.
        -- inversion Hp. eauto.
Qed.

Lemma slice_to_last_snoc (prefix : string) (c : ascii) :
  slice_to_last (prefix ++ String c "") = prefix.
Proof.
  induction prefix as [|d rest IH]; simpl.
  - reflexivity.
  - rewrite IH. destruct (rest ++ String c "") eqn:Hr.
    + destruct rest; discriminate.
    + reflexivity.
Qed.

Lemma snoc_injective (p q : string) (c : ascii) :
  p ++ String c "" = q ++ String c "" -> p = q.
Proof.
  intros H.
  rewrite <- (slice_to_last_snoc p c), <- (slice_to_last_snoc q c).
  now rewrite H.
Qed.

(** A dictionary's keys are unique, so copying it item by item gives the
    same items in the same order. *)
Lemma dict_setitem_fresh {V : Type} (d : dict V) (k : string) (v : V) :
  ~ In k (dict_keys d) -> dict_setitem d k v = (d ++ [(k, v)])%list.
Proof.
  induction d as [|[k' v'] rest IH]; simpl; intros Hfresh.
  - reflexivity.
  - destruct (String.eqb_spec k' k) as [Heq|Hne].
    + exfalso. apply Hfresh. now left.
    + rewrite IH; [reflexivity | intuition].
Qed.

Lemma copy_items_unique {V : Type} (d acc : dict V) :
  NoDup (dict_keys (acc ++ d)%list) ->
  fold_left (fun a kv => dict_setitem a (fst kv) (snd kv)) d acc
  = (acc ++ d)%list.
Proof.
  revert acc. induction d as [|[k v] rest IH]; intros acc Hnd; simpl.
  - now rewrite app_nil_r.
  - assert (Hsplit : (acc ++ (k, v) :: rest = (acc ++ [(k, v)]) ++ rest)%list)
      by now rewrite <- app_assoc.
    rewrite dict_setitem_fresh.
    + rewrite IH; [now rewrite <- app_assoc | now rewrite <- Hsplit].
    + unfold dict_keys in *. rewrite map_app in Hnd. simpl in Hnd.
      apply NoDup_remove_2 in Hnd. intros Hin. apply Hnd.
      apply in_or_app. now left.
Qed.

Lemma immutabledict_unique {V : Type} (d : dict V) :
  NoDup (dict_keys d) -> immutabledict d = d.
Proof.
  intros Hnd. unfold immutabledict. now apply (copy_items_unique d []).
Qed.

Lemma immutabledict_idem {V : Type} (d : dict V) :
  NoDup (dict_keys d) -> immutabledict (immutabledict d) = immutabledict d.
Proof.
  intros Hnd. now rewrite (immutabledict_unique d Hnd), (immutabledict_unique d Hnd).
Qed.

(** Appending one rendered line per element is mapping over the elements. *)
Lemma fold_list_append {A B : Type} (f : A -> B) (l : list A) (acc : list B) :
  fold_left (fun a x => list_append a (f x)) l acc = (acc ++ map f l)%list.
Proof.
  revert acc. induction l as [|x rest IH]; intros acc; simpl.
  - now rewrite app_nil_r.
  - rewrite IH. unfold list_append. now rewrite <- app_assoc.
Qed.

(* ================================================================= *)
(** ** Attribute resolution *)

Lemma lookup_key_stripped (k : string) :
  iskeyword k = true -> lookup_key (k ++ "_") = k.
Proof.
  intros Hk. unfold lookup_key.
  assert (Hends : endswith (k ++ "_") "_" = true)
    by (apply endswith_suffix; now exists k).
  now rewrite Hends, slice_to_last_snoc, Hk.
Qed.

Lemma lookup_key_plain (name : string) :
  (forall k, name = k ++ "_" -> iskeyword k = false) -> lookup_key name = name.
Proof.
  intros Hplain. unfold lookup_key.
  destruct (endswith name "_") eqn:Hends; [|reflexivity].
  apply endswith_suffix in Hends. destruct Hends as [k Hk].
  rewrite Hk at 1. rewrite slice_to_last_snoc.
  now rewrite (Hplain k Hk).
Qed.

Lemma lookup_key_cases (name : string) :
  (exists k, name = k ++ "_" /\ iskeyword k = true /\ lookup_key name = k)
  \/ ((forall k, name = k ++ "_" -> iskeyword k = false)
      /\ lookup_key name = name).
Proof.
  destruct (endswith name "_") eqn:Hends.
  - apply endswith_suffix in Hends. destruct Hends as [k Hk].
    destruct (iskeyword k) eqn:Hkw.
    + left. exists k. subst name. auto using lookup_key_stripped.
    + right. assert (Hplain : forall k', name = k' ++ "_" -> iskeyword k' = false).
      { intros k' Hk'. rewrite Hk in Hk'. apply snoc_injective in Hk'.
        now subst k'. }
      auto using lookup_key_plain.
  - assert (Hplain : forall k, name = k ++ "_" -> iskeyword k = false).
    { intros k Hk. assert (endswith name "_" = true)
        by (apply endswith_suffix; now exists k). congruence. }
    right. auto using lookup_key_plain.
Qed.

(** The key is the requested name or a keyword. *)
Lemma lookup_key_keyword (name : string) :
  lookup_key name = name \/ iskeyword (lookup_key name) = true.
Proof.
  destruct (lookup_key_cases name) as [[k (_ & Hkw & Hkey)]|[_ Hkey]].
  - right. now rewrite Hkey.
  - now left.
Qed.

Section AttributeResolution.

Context {E : Expressions} {C : Context}.

Lemma truthy_nonempty {A : Type} (l : list A) : l <> [] -> truthy l = true.
Proof. destruct l; [contradiction | reflexivity]. Qed.

(** C1. Attribute resolution on a View is two-tier. (a) The lookup key
    is the requested name without its trailing underscore when what
    remains is a Python keyword, and the name itself otherwise. (b) With
    a non-empty fields mapping, only that mapping is consulted: a key it
    holds yields the stored expression, a key it lacks raises
    AttributeError naming the requested attribute. (c) With an empty
    fields mapping the answer is that of the root builder's own attribute
    resolution at the key: its expression, its exception, or, when it
    yields None, AttributeError naming the requested attribute. (d) For
    [v2 = v.select({'x': expr})], [v2.x] is [expr] and [v2.y] for any
    other [y] raises AttributeError naming [y]. *)
Theorem getattr_two_tier (v : View) (name : string) :
  ((exists k, name = k ++ "_" /\ iskeyword k = true /\ lookup_key name = k)
   \/ ((forall k, name = k ++ "_" -> iskeyword k = false)
       /\ lookup_key name = name))
  /\ (_fields v <> [] ->
      (forall e, dict_get (_fields v) (lookup_key name) = Some e ->
                 __getattr__ v name = Ok e)
      /\ (dict_get (_fields v) (lookup_key name) = None ->
          __getattr__ v name = Raise (unknown_attribute name)))
  /\ (_fields v = [] ->
      (forall e, Builder_getattr (_root_builder v) (lookup_key name)
                 = Ok (Some e) ->
                 __getattr__ v name = Ok e)
      /\ (Builder_getattr (_root_builder v) (lookup_key name) = Ok None ->
          __getattr__ v name = Raise (unknown_attribute name))
      /\ (forall ex, Builder_getattr (_root_builder v) (lookup_key name)
                     = Raise ex ->
                     __getattr__ v name = Raise ex))
  /\ (forall expr : Builder,
      __getattr__ (select v [("x", expr)]) "x" = Ok expr
      /\ (name <> "x" ->
          __getattr__ (select v [("x", expr)]) name
          = Raise (unknown_attribute name))).
Proof.
  split; [apply lookup_key_cases|].
  split; [|split].
  - intros Hfields. unfold __getattr__.
    rewrite (truthy_nonempty _ Hfields). simpl.
    split; [intros e He | intros He]; now rewrite He.
  - intros Hfields. unfold __getattr__. rewrite Hfields. simpl.
    split; [|split]; [intros e He | intros He | intros ex He];
      now rewrite He.
  - intros expr. split; [reflexivity|].
    intros Hother. unfold __getattr__, select. cbn [_fields].
    change (immutabledict [("x", expr)]) with [("x", expr)].
    cbn [truthy dict_get bind].
    destruct (String.eqb_spec "x" (lookup_key name)) as [Heq|Hne];
      [|reflexivity].
    exfalso. destruct (lookup_key_keyword name) as [Hsame|Hkw].
    + congruence.
    + rewrite <- Heq in Hkw. discriminate.
Qed.

End AttributeResolution.

(* ================================================================= *)
(** ** Patient-id resolution *)

Section PatientId.

Context {E : Expressions} {C : Context}.

(** C2. For a View whose structure definition is not Patient and has
    at least one patient-reference path, the chosen path is 'subject'
    when it is among the candidates and the first candidate otherwise;
    the result is the chosen field resolved from the root builder,
    followed by its id for resource type 'patient'. A failure of either
    step is the failure of the call. *)
Theorem patient_id_subject_or_first
    {U : Utils} (v : View) (structdef : StructureDefinition)
    (first : string) (others : list string) (path : string) :
  get_structure_definition (_context v) (_structdef_url v) = Ok structdef ->
  structdef_id_value structdef <> "Patient" ->
  get_patient_reference_element_paths structdef = first :: others ->
  (In "subject" (first :: others) /\ path = "subject")
  \/ (~ In "subject" (first :: others) /\ path = first) ->
  (forall field expression,
      Builder___getattr__ (_root_builder v) path = Ok field ->
      idFor field "patient" = Ok expression ->
      get_patient_id_expression v = Ok (Some expression))
  /\ (forall ex,
      Builder___getattr__ (_root_builder v) path = Raise ex ->
      get_patient_id_expression v = Raise ex)
  /\ (forall field ex,
      Builder___getattr__ (_root_builder v) path = Ok field ->
      idFor field "patient" = Raise ex ->
      get_patient_id_expression v = Raise ex).
Proof.
  intros Hdef Hid Hpaths Hchoice.
  assert (Hsel : (if str_in "subject" (first :: others)
                  then "subject" else first) = path).
  { destruct Hchoice as [[Hin ->]|[Hout ->]].
    - apply str_in_In in Hin. now rewrite Hin.
    - destruct (str_in "subject" (first :: others)) eqn:Hs; [|reflexivity].
      apply str_in_In in Hs. contradiction. }
  unfold get_patient_id_expression. rewrite Hdef. cbn [bind].
  apply String.eqb_neq in Hid. rewrite Hid, Hpaths, Hsel.
  repeat split.
  - intros field expression Hf Hx. now rewrite Hf; cbn [bind]; rewrite Hx.
  - intros ex Hf. now rewrite Hf.
  - intros field ex Hf Hx. now rewrite Hf; cbn [bind]; rewrite Hx.
Qed.

(** C7. For a View whose structure definition's id is 'Patient', the
    result is the root builder's own [id] attribute, whatever the
    patient-reference enumeration would answer. *)
Theorem patient_id_of_patient
    (U : Utils) (v : View) (structdef : StructureDefinition) :
  get_structure_definition (_context v) (_structdef_url v) = Ok structdef ->
  structdef_id_value structdef = "Patient" ->
  get_patient_id_expression (U := U) v
  = Builder_getattr (_root_builder v) "id".
Proof.
  intros Hdef Hid. unfold get_patient_id_expression.
  rewrite Hdef. cbn [bind]. apply String.eqb_eq in Hid. now rewrite Hid.
Qed.

(** C8. For a View whose structure definition is not Patient and has no
    patient-reference path, the call returns None; it does not raise. *)
Theorem patient_id_absent
    {U : Utils} (v : View) (structdef : StructureDefinition) :
  get_structure_definition (_context v) (_structdef_url v) = Ok structdef ->
  structdef_id_value structdef <> "Patient" ->
  get_patient_reference_element_paths structdef = [] ->
  get_patient_id_expression v = Ok None.
Proof.
  intros Hdef Hid Hpaths. unfold get_patient_id_expression.
  rewrite Hdef. cbn [bind]. apply String.eqb_neq in Hid.
  now rewrite Hid, Hpaths.
Qed.

End PatientId.

(* ================================================================= *)
(** ** select and where *)

Section Composition.

Context {E : Expressions} {C : Context}.

Lemma check_constraints_boolean (constraints : list Builder) :
  Forall (fun c => return_type c = Boolean) constraints ->
  check_constraints constraints = Ok tt.
Proof.
  induction 1 as [|c rest Hc _ IH]; cbn [check_constraints].
  - reflexivity.
  - destruct (DataType_eq_dec (return_type c) Boolean); [exact IH | contradiction].
Qed.

(** The loop stops at the first constraint that is not boolean. *)
Lemma check_constraints_first (before after : list Builder) (c : Builder) :
  Forall (fun c => return_type c = Boolean) before ->
  return_type c <> Boolean ->
  check_constraints (before ++ c :: after) = Raise (invalid_constraint c).
Proof.
  induction 1 as [|b rest Hb _ IH]; intros Hc; cbn [check_constraints app].
  - destruct (DataType_eq_dec (return_type c) Boolean);
      [contradiction | reflexivity].
  - destruct (DataType_eq_dec (return_type b) Boolean);
      [auto | contradiction].
Qed.

(** Every list is all boolean, or splits at its first non-boolean. *)
Lemma first_non_boolean (constraints : list Builder) :
  Forall (fun c => return_type c = Boolean) constraints
  \/ exists before c after,
      constraints = (before ++ c :: after)%list
      /\ Forall (fun c => return_type c = Boolean) before
      /\ return_type c <> Boolean.
Proof.
  induction constraints as [|c rest IH].
  - left. constructor.
  - destruct (DataType_eq_dec (return_type c) Boolean) as [Hc|Hc].
    + destruct IH as [Hall|(before & c' & after & -> & Hbefore & Hc')].
      * left. now constructor.
      * right. exists (c :: before), c', after. repeat split; auto.
    + right. exists [], c, rest. repeat split; auto.
Qed.

Lemma where_boolean (v : View) (constraints : list Builder) :
  Forall (fun c => return_type c = Boolean) constraints ->
  where_ v constraints
  = Ok (View_init (_structdef_url v) (_root_builder v) (_context v)
                  (_fields v) (_constraints v ++ constraints)%list).
Proof.
  intros Hall. unfold where_. now rewrite check_constraints_boolean.
Qed.

Lemma where_first (v : View) (before after : list Builder) (c : Builder) :
  Forall (fun c => return_type c = Boolean) before ->
  return_type c <> Boolean ->
  where_ v (before ++ c :: after) = Raise (invalid_constraint c).
Proof.
  intros Hbefore Hc. unfold where_.
  now rewrite check_constraints_first.
Qed.

(** C3. A call of [where] raises exactly when some supplied constraint's
    result type is not boolean, however many boolean ones accompany it.
    The exception is a ValueError whose arguments contain the FHIRPath
    rendering of the first such constraint. When it raises, the store of
    View objects is the one before the call: no View was created and the
    receiver is as it was. *)
Theorem where_rejects_non_boolean (v : View) (constraints : list Builder) :
  ((exists e, where_ v constraints = Raise e /\ exc_type e = ValueError)
   <-> (exists c, In c constraints /\ return_type c <> Boolean))
  /\ (forall e, where_ v constraints = Raise e ->
      exists c, In c constraints /\ return_type c <> Boolean
                /\ e = invalid_constraint c)
  /\ (forall before c after,
      constraints = (before ++ c :: after)%list ->
      Forall (fun c => return_type c = Boolean) before ->
      return_type c <> Boolean ->
      where_ v constraints = Raise (invalid_constraint c)
      /\ exc_type (invalid_constraint c) = ValueError
      /\ In (" got `" ++ to_fhir_path c ++ "`")
            (exc_strings (invalid_constraint c)))
  /\ (forall (h : store) (self : ref) e,
      nth_error h self = Some v ->
      where_ v constraints = Raise e ->
      call_where h self constraints = Some (h, Raise e)
      /\ nth_error h self = Some v).
Proof.
  assert (Hraised : forall e, where_ v constraints = Raise e ->
            exists c, In c constraints /\ return_type c <> Boolean
                      /\ e = invalid_constraint c).
  { intros e He.
    destruct (first_non_boolean constraints)
      as [Hall|(before & c & after & -> & Hbefore & Hc)].
    - rewrite (where_boolean v constraints Hall) in He. discriminate.
    - rewrite (where_first v before after c Hbefore Hc) in He.
      injection He as <-. exists c. repeat split; [|exact Hc].
      apply in_or_app. right. now left. }
  split; [|split; [exact Hraised | split]].
  - split.
    + intros [e [He _]]. destruct (Hraised e He) as (c & Hin & Hc & _). eauto.
    + intros [c [Hin Hc]].
      destruct (first_non_boolean constraints)
        as [Hall|(before & c' & after & -> & Hbefore & Hc')].
      * rewrite Forall_forall in Hall. elim Hc. auto.
      * exists (invalid_constraint c'). split; [|reflexivity].
        now apply where_first.
  - intros before c after -> Hbefore Hc. split; [now apply where_first|].
    split; [reflexivity|]. simpl. auto.
  - intros h self e Hself He. unfold call_where.
    rewrite Hself, He. auto.
Qed.

(** C4. Calling [select] or [where] on a View object leaves that object,
    and every other object of the store, as it was. The View that
    [select] returns has the receiver's structure-definition URL, root
    builder, context and constraints; the View that [where] returns has
    the receiver's structure-definition URL, root builder, context and
    fields. *)
Theorem select_where_frame (h : store) (self : ref) (v : View) :
  nth_error h self = Some v ->
  (forall fields, exists h' r v',
      call_select h self fields = Some (h', r)
      /\ nth_error h' self = Some v
      /\ (forall r0 v0, nth_error h r0 = Some v0 -> nth_error h' r0 = Some v0)
      /\ nth_error h' r = Some v'
      /\ _structdef_url v' = _structdef_url v
      /\ _root_builder v' = _root_builder v
      /\ _context v' = _context v
      /\ _constraints v' = _constraints v)
  /\ (forall constraints, exists h' out,
      call_where h self constraints = Some (h', out)
      /\ nth_error h' self = Some v
      /\ (forall r0 v0, nth_error h r0 = Some v0 -> nth_error h' r0 = Some v0)
      /\ (forall r, out = Ok r -> exists v',
            nth_error h' r = Some v'
            /\ _structdef_url v' = _structdef_url v
            /\ _root_builder v' = _root_builder v
            /\ _context v' = _context v
            /\ _fields v' = _fields v)).
Proof.
  intros Hself.
  assert (Hold : forall w r0 v0,
             nth_error h r0 = Some v0 ->
             nth_error (h ++ [w])%list r0 = Some v0).
  { intros w r0 v0 H0. rewrite nth_error_app1; [exact H0|].
    apply nth_error_Some. congruence. }
  assert (Hnew : forall w, nth_error (h ++ [w])%list (List.length h) = Some w).
  { intros w. rewrite nth_error_app2, Nat.sub_diag; [reflexivity | lia]. }
  split.
  - intros fields. unfold call_select, new_View. rewrite Hself.
    exists (h ++ [select v fields])%list, (List.length h), (select v fields).
    repeat split; auto.
  - intros constraints. unfold call_where. rewrite Hself.
    destruct (first_non_boolean constraints)
      as [Hall|(before & c & after & -> & Hbefore & Hc)].
    + rewrite (where_boolean v constraints Hall). unfold new_View.
      eexists. eexists. split; [reflexivity|].
      repeat split; auto.
      intros r Hr. injection Hr as <-.
      eexists. split; [apply Hnew|]. repeat split.
    + rewrite (where_first v before after c Hbefore Hc).
      exists h, (Raise (invalid_constraint c)).
      repeat split; auto. discriminate.
Qed.

(** Two calls of [where] in a row are one call with the constraints of
    both, whether or not it raises. *)
Lemma where_where (v : View) (cs1 cs2 : list Builder) :
  (v1 <- where_ v cs1 ;; where_ v1 cs2) = where_ v (cs1 ++ cs2)%list.
Proof.
  destruct (first_non_boolean cs1)
    as [Hall1|(before & c & after & -> & Hbefore & Hc)].
  - rewrite (where_boolean v cs1 Hall1). cbn [bind].
    destruct (first_non_boolean cs2)
      as [Hall2|(before & c & after & -> & Hbefore & Hc)].
    + rewrite !where_boolean; auto using Forall_app.
      * cbn [_structdef_url _root_builder _context _fields _constraints].
        now rewrite app_assoc.
      * apply Forall_app. auto.
    + rewrite (where_first _ before after c Hbefore Hc).
      rewrite app_assoc. apply eq_sym, where_first; [|exact Hc].
      apply Forall_app. auto.
  - rewrite (where_first v before after c Hbefore Hc). cbn [bind].
    rewrite <- app_assoc. cbn [app]. apply eq_sym. now apply where_first.
Qed.

(** C5. For boolean [a] and [b], [v.where(a).where(b)] and
    [v.where(a, b)] both succeed, with the same View, whose constraints
    are those of [v] followed by [a] and [b] in that order; nothing is
    removed when [a], [b] or an earlier constraint repeat. *)
Theorem where_accumulates_in_order (v : View) (a b : Builder) :
  return_type a = Boolean ->
  return_type b = Boolean ->
  exists v2,
    (v1 <- where_ v [a] ;; where_ v1 [b]) = Ok v2
    /\ where_ v [a; b] = Ok v2
    /\ _constraints v2 = (_constraints v ++ [a; b])%list
    /\ List.length (_constraints v2) = List.length (_constraints v) + 2.
Proof.
  intros Ha Hb.
  assert (Hall : Forall (fun c => return_type c = Boolean) [a; b])
    by (repeat constructor; assumption).
  eexists. rewrite (where_where v [a] [b]). cbn [app].
  rewrite (where_boolean v [a; b] Hall).
  repeat split. cbn [_constraints]. rewrite length_app. reflexivity.
Qed.

(** The View returned by [select] holds the mapping it was given. *)
Lemma select_stores_mapping (v : View) (f : dict Builder) :
  NoDup (dict_keys f) -> _fields (select v f) = f.
Proof. intros Hf. cbn [select _fields]. now apply immutabledict_unique. Qed.

(** C6. Selecting the same mapping twice gives the View that selecting
    it once gives: the same structure-definition URL, fields and
    constraints (and root builder and context). *)
Theorem select_idempotent (v : View) (f : dict Builder) :
  select (select v f) f = select v f
  /\ _structdef_url (select (select v f) f) = _structdef_url (select v f)
  /\ _fields (select (select v f) f) = _fields (select v f)
  /\ _constraints (select (select v f) f) = _constraints (select v f).
Proof. repeat split. Qed.

End Composition.

(* ================================================================= *)
(** ** Rendering *)

Lemma string_app_assoc (a b c : string) : (a ++ b) ++ c = a ++ (b ++ c).
Proof. induction a as [|x a IH]; simpl; [reflexivity | now rewrite IH]. Qed.

Section Rendering.

Context {E : Expressions} {C : Context}.

Lemma select_strings_lines (v : View) :
  fold_left
    (fun acc item =>
       list_append acc ("  " ++ fst item ++ ": " ++ fhir_path (snd item)))
    (get_select_expressions v) []
  = map select_line (_fields v).
Proof. exact (fold_list_append select_line (_fields v) []). Qed.

Lemma where_strings_lines (v : View) :
  fold_left
    (fun acc builder => list_append acc ("  " ++ fhir_path builder))
    (get_constraint_expressions v) []
  = map where_line (_constraints v).
Proof. exact (fold_list_append where_line (_constraints v) []). Qed.

Lemma str_without_constraints (v : View) :
  _constraints v = [] ->
  __str__ v = "View<" ++ _structdef_url v ++ ".select(" ++ LF
                ++ join ("," ++ LF) (map select_line (_fields v))
                ++ LF ++ ")>".
Proof.
  intros Hnone. unfold __str__.
  rewrite select_strings_lines, where_strings_lines, Hnone. reflexivity.
Qed.

Lemma str_with_constraints (v : View) :
  _constraints v <> [] ->
  __str__ v = "View<" ++ _structdef_url v ++ ".select(" ++ LF
                ++ join ("," ++ LF) (map select_line (_fields v))
                ++ LF ++ ").where(" ++ LF
                ++ join ("," ++ LF) (map where_line (_constraints v))
                ++ LF ++ ")>".
Proof.
  intros Hsome. unfold __str__.
  rewrite select_strings_lines, where_strings_lines.
  destruct (_constraints v) as [|c rest]; [contradiction | reflexivity].
Qed.

(** C9. The rendering of a View is a function of its stored
    structure-definition URL, fields and constraints alone, and it is
    the documented template: [View<], the URL, [.select(], a line feed,
    one line [  name: fhirpath] per field in stored order joined by a
    comma and a line feed, a line feed and [)]; then, exactly when the
    constraints are not empty, [.where(], a line feed, one line
    [  fhirpath] per constraint in stored order joined likewise, a line
    feed and [)]; then [>]. [repr] is the same string. *)
Theorem str_matches_template (v : View) :
  __str__ v = view_template v
  /\ (_constraints v = [] ->
      __str__ v = "View<" ++ _structdef_url v ++ select_clause v ++ ">")
  /\ (_constraints v <> [] ->
      __str__ v = "View<" ++ _structdef_url v ++ select_clause v
                     ++ where_clause v ++ ">")
  /\ __repr__ v = __str__ v
  /\ (forall v' : View,
      _structdef_url v' = _structdef_url v ->
      _fields v' = _fields v ->
      _constraints v' = _constraints v ->
      __str__ v' = __str__ v).
Proof.
  assert (Hnone : _constraints v = [] ->
                  __str__ v = "View<" ++ _structdef_url v
                                ++ select_clause v ++ ">").
  { intros H. rewrite (str_without_constraints v H). unfold select_clause.
    f_equal. f_equal. rewrite !string_app_assoc. reflexivity. }
  assert (Hsome : _constraints v <> [] ->
                  __str__ v = "View<" ++ _structdef_url v
                                ++ select_clause v ++ where_clause v ++ ">").
  { intros H. rewrite (str_with_constraints v H).
    unfold select_clause, where_clause.
    f_equal. f_equal. rewrite !string_app_assoc. reflexivity. }
  split; [|split; [exact Hnone | split; [exact Hsome | split]]].
  - unfold view_template. destruct (_constraints v) as [|c rest] eqn:Hcs.
    + now rewrite Hnone.
    + rewrite Hsome; [reflexivity | discriminate].
  - reflexivity.
  - intros v' Hurl Hfields Hcs. unfold __str__, get_select_expressions,
      get_constraint_expressions. now rewrite Hurl, Hfields, Hcs.
Qed.

End Rendering.

(* ================================================================= *)
(** ** Selecting nothing *)

Section EmptySelection.

Context {E : Expressions} {C : Context} {I : Introspection}.

(** C10. A View that selected the empty mapping has an empty fields
    mapping, so it resolves attributes and lists its directory as a View
    without selection does: through the root builder. A name the root
    builder resolves is resolved, not rejected; the directory is the
    root builder's field names followed by the class's own names; and a
    View that never selected is unchanged by selecting the empty
    mapping, which holds in particular for the View made by [view_of]. *)
Theorem select_empty_is_unscoped (v : View) (name : string) :
  _fields (select v []) = []
  /\ __getattr__ (select v []) name
     = __getattr__ (View_init (_structdef_url v) (_root_builder v)
                              (_context v) [] (_constraints v)) name
  /\ (forall e,
      Builder_getattr (_root_builder v) (lookup_key name) = Ok (Some e) ->
      __getattr__ (select v []) name = Ok e)
  /\ __dir__ (select v [])
     = (fhir_path_fields (_root_builder v) ++ dir_type_View)%list
  /\ (_fields v = [] ->
      select v [] = v
      /\ __getattr__ (select v []) name = __getattr__ v name
      /\ __dir__ (select v []) = __dir__ v)
  /\ (forall (V : Evaluation) (factory : Views) (url : string) (v0 : View),
      view_of factory url = Ok v0 ->
      select v0 [] = v0
      /\ __getattr__ (select v0 []) name = __getattr__ v0 name
      /\ __dir__ (select v0 []) = __dir__ v0).
Proof.
  assert (Hsame : forall w : View, _fields w = [] -> select w [] = w).
  { intros [url root ctx fields cs] Hw. cbn in Hw. subst fields. reflexivity. }
  split; [reflexivity|]. split; [reflexivity|]. split; [|split; [|split]].
  - intros e He. unfold __getattr__, select. cbn [_fields _root_builder].
    change (@immutabledict Builder []) with (@nil (string * Builder)).
    cbn [truthy]. now rewrite He.
  - reflexivity.
  - intros Hv. now rewrite (Hsame v Hv).
  - intros V factory url v0 Hv0.
    assert (H0 : _fields v0 = []).
    { unfold view_of in Hv0. destruct (expression_for factory url); cbn in Hv0;
        [|discriminate]. injection Hv0 as <-. reflexivity. }
    now rewrite (Hsame v0 H0).
Qed.

End EmptySelection.

(* ================================================================= *)
(** ** The theorems at work on the small instance *)

(** A view scoped to the field [class]: [class_] reaches it, [name] is
    unknown; without selection, [class_] reaches the schema's [class], and
    a failure of the root builder is passed on. *)
Lemma getattr_two_tier_demo :
  __getattr__ (select Demo.pat [("class", Demo.name)]) "class_" = Ok Demo.name
  /\ __getattr__ (select Demo.pat [("class", Demo.name)]) "name"
     = Raise (unknown_attribute "name")
  /\ __getattr__ Demo.pat "class_" = Ok (Demo.Field (Demo.Root "Patient") "class")
  /\ __getattr__ Demo.pat "nope" = Raise (Exc AttributeError [ArgStr "nope"])
  /\ __getattr__ (select Demo.pat [("x", Demo.active)]) "y"
     = Raise (unknown_attribute "y").
Proof.
  split; [|split; [|split; [|split]]].
  - pose proof (getattr_two_tier (select Demo.pat [("class", Demo.name)])
                  "class_") as (_ & Hscoped & _).
    apply Hscoped.
    + simpl. discriminate.
    + reflexivity.
  - pose proof (getattr_two_tier (select Demo.pat [("class", Demo.name)])
                  "name") as (_ & Hscoped & _).
    apply Hscoped.
    + simpl. discriminate.
    + reflexivity.
  - pose proof (getattr_two_tier Demo.pat "class_") as (_ & _ & Hroot & _).
    apply Hroot; reflexivity.
  - pose proof (getattr_two_tier Demo.pat "nope") as (_ & _ & Hroot & _).
    apply Hroot; reflexivity.
  - pose proof (getattr_two_tier Demo.pat "y") as (_ & _ & _ & Hexample).
    apply Hexample. discriminate.
Defined.

(** Observation lists [subject] first, Procedure lists it second: both
    resolve through [subject]. *)
Lemma patient_id_subject_or_first_demo :
  get_patient_id_expression (U := Demo.utils) Demo.obs
  = Ok (Some (Demo.IdFor (Demo.Field (Demo.Root "Observation") "subject")
                         "patient"))
  /\ get_patient_id_expression (U := Demo.utils) Demo.proc
     = Ok (Some (Demo.IdFor (Demo.Field (Demo.Root "Procedure") "subject")
                            "patient"))
  /\ get_patient_id_expression (U := Demo.utils_alt) Demo.obs
     = Ok (Some (Demo.IdFor (Demo.Field (Demo.Root "Observation") "performer")
                            "patient")).
Proof.
  assert (Hobs : "Observation" <> "Patient") by discriminate.
  assert (Hproc : "Procedure" <> "Patient") by discriminate.
  split; [|split].
  - assert (Hchoice : (In "subject" ["subject"; "performer"]
                       /\ "subject" = "subject")
                      \/ (~ In "subject" ["subject"; "performer"]
                          /\ "subject" = "subject"))
      by (left; split; [simpl; auto | reflexivity]).
    pose proof (patient_id_subject_or_first (U := Demo.utils) Demo.obs
                  "Observation" "subject" ["performer"] "subject"
                  eq_refl Hobs eq_refl Hchoice) as (Hbuilt & _).
    apply (Hbuilt (Demo.Field (Demo.Root "Observation") "subject"));
      reflexivity.
  - assert (Hchoice : (In "subject" ["performer"; "subject"]
                       /\ "subject" = "subject")
                      \/ (~ In "subject" ["performer"; "subject"]
                          /\ "subject" = "performer"))
      by (left; split; [simpl; auto | reflexivity]).
    pose proof (patient_id_subject_or_first (U := Demo.utils) Demo.proc
                  "Procedure" "performer" ["subject"] "subject"
                  eq_refl Hproc eq_refl Hchoice) as (Hbuilt & _).
    apply (Hbuilt (Demo.Field (Demo.Root "Procedure") "subject"));
      reflexivity.
  - assert (Hchoice : (In "subject" ["performer"]
                       /\ "performer" = "subject")
                      \/ (~ In "subject" ["performer"]
                          /\ "performer" = "performer")).
    { right. split; [|reflexivity].
      simpl. intros [H|H]; [discriminate H | exact H]. }
    pose proof (patient_id_subject_or_first (U := Demo.utils_alt) Demo.obs
                  "Observation" "performer" [] "performer"
                  eq_refl Hobs eq_refl Hchoice) as (Hbuilt & _).
    apply (Hbuilt (Demo.Field (Demo.Root "Observation") "performer"));
      reflexivity.
Defined.

(** The Patient view answers with its own [id] under two enumerations
    that both list candidates for Patient. *)
Lemma patient_id_of_patient_demo :
  get_patient_id_expression (U := Demo.utils) Demo.pat
  = Ok (Some (Demo.Field (Demo.Root "Patient") "id"))
  /\ get_patient_id_expression (U := Demo.utils_alt) Demo.pat
     = Ok (Some (Demo.Field (Demo.Root "Patient") "id")).
Proof.
  split.
  - apply (patient_id_of_patient Demo.utils Demo.pat "Patient"); reflexivity.
  - apply (patient_id_of_patient Demo.utils_alt Demo.pat "Patient"); reflexivity.
Defined.

(** Organization has no patient reference. *)
Lemma patient_id_absent_demo :
  get_patient_id_expression (U := Demo.utils) Demo.org = Ok None.
Proof.
  apply (patient_id_absent (U := Demo.utils) Demo.org "Organization").
  - reflexivity.
  - discriminate.
  - reflexivity.
Defined.

(** One string-valued constraint between two boolean ones. *)
Lemma where_rejects_non_boolean_demo :
  where_ Demo.pat [Demo.active; Demo.name; Demo.has_name]
  = Raise (Exc ValueError
               [ArgTuple
                  ["view `where` expressions must be boolean predicates";
                   " got `Patient.name`"]])
  /\ call_where [Demo.pat] 0 [Demo.active; Demo.name; Demo.has_name]
     = Some ([Demo.pat], Raise (invalid_constraint (E := Demo.expressions) Demo.name))
  /\ exists c, In c [Demo.active; Demo.name; Demo.has_name]
               /\ Demo.type_of c <> Demo.TBoolean.
Proof.
  pose proof (where_rejects_non_boolean
                Demo.pat [Demo.active; Demo.name; Demo.has_name])
    as (Hiff & _ & Hfirst & Hstore).
  assert (Hraise : where_ Demo.pat [Demo.active; Demo.name; Demo.has_name]
                   = Raise (invalid_constraint (E := Demo.expressions) Demo.name)).
  { apply (Hfirst [Demo.active] Demo.name [Demo.has_name]).
    - reflexivity.
    - repeat constructor.
    - discriminate. }
  split; [exact Hraise | split].
  - apply (Hstore [Demo.pat] 0 (invalid_constraint (E := Demo.expressions) Demo.name)).
    + reflexivity.
    + exact Hraise.
  - apply Hiff. exists (invalid_constraint (E := Demo.expressions) Demo.name).
    split; [exact Hraise | reflexivity].
Defined.

(** A store of two views; [select] and [where] on the second. *)
Lemma select_where_frame_demo :
  (exists h' r v',
      call_select [Demo.obs; Demo.pat] 1 [("name", Demo.name)] = Some (h', r)
      /\ nth_error h' 1 = Some Demo.pat
      /\ nth_error h' r = Some v'
      /\ _constraints v' = [])
  /\ (exists h' out,
      call_where [Demo.obs; Demo.pat] 1 [Demo.active] = Some (h', out)
      /\ nth_error h' 1 = Some Demo.pat).
Proof.
  pose proof (select_where_frame [Demo.obs; Demo.pat] 1 Demo.pat eq_refl)
    as [Hselect Hwhere].
  split.
  - destruct (Hselect [("name", Demo.name)])
      as (h' & r & v' & Hcall & Hself & _ & Hnew & _ & _ & _ & Hcs).
    exists h', r, v'. repeat split; assumption.
  - destruct (Hwhere [Demo.active]) as (h' & out & Hcall & Hself & _).
    exists h', out. split; assumption.
Defined.

(** Two boolean constraints on the Patient view. *)
Lemma where_accumulates_in_order_demo :
  exists v2,
    (v1 <- where_ Demo.pat [Demo.active] ;; where_ v1 [Demo.has_name]) = Ok v2
    /\ where_ Demo.pat [Demo.active; Demo.has_name] = Ok v2
    /\ _constraints v2 = [Demo.active; Demo.has_name].
Proof.
  destruct (where_accumulates_in_order Demo.pat Demo.active Demo.has_name
              eq_refl eq_refl) as (v2 & Htwice & Honce & Hcs & _).
  exists v2. repeat split; assumption.
Defined.

(** A view with one field and no constraint, then with one constraint. *)
Lemma str_matches_template_demo :
  __str__ (select Demo.pat [("name", Demo.name)])
  = "View<Patient.select(" ++ LF ++ "  name: Patient.name" ++ LF ++ ")>"
  /\ __str__ Demo.named_if_active
     = "View<Patient.select(" ++ LF ++ "  name: Patient.name" ++ LF
         ++ ").where(" ++ LF ++ "  Patient.active" ++ LF ++ ")>".
Proof.
  split.
  - pose proof (str_matches_template (select Demo.pat [("name", Demo.name)]))
      as (_ & Hnone & _).
    apply Hnone. reflexivity.
  - pose proof (str_matches_template Demo.named_if_active)
      as (_ & _ & Hsome & _).
    apply Hsome. discriminate.
Defined.

(** Selecting nothing on the Patient view and on the view the factory
    makes. *)
Lemma select_empty_is_unscoped_demo :
  __getattr__ (select Demo.pat []) "name" = Ok Demo.name
  /\ select Demo.pat [] = Demo.pat
  /\ (forall v0, view_of Demo.views "Patient" = Ok v0 -> select v0 [] = v0).
Proof.
  pose proof (select_empty_is_unscoped (I := Demo.introspection)
                Demo.pat "name") as (_ & _ & Hresolved & _ & Hnone & Hfactory).
  split; [|split].
  - apply Hresolved. reflexivity.
  - apply Hnone. reflexivity.
  - intros v0 Hv0.
    apply (Hfactory Demo.evaluation Demo.views "Patient" v0 Hv0).
Defined.

(* ================================================================= *)
(** ** More about the lookup key *)

(** No Python keyword ends with an underscore. *)
Lemma keyword_no_trailing_underscore (s : string) :
  iskeyword s = true -> endswith s "_" = false.
Proof.
  intros Hk. apply str_in_In in Hk.
  assert (Hall : forallb (fun k => negb (endswith k "_")) kwlist = true)
    by reflexivity.
  rewrite forallb_forall in Hall. specialize (Hall s Hk).
  now apply negb_true_iff in Hall.
Qed.

Lemma keyword_not_escaped (k : string) :
  iskeyword (k ++ "_") = false.
Proof.
  destruct (iskeyword (k ++ "_")) eqn:Hk; [|reflexivity].
  apply keyword_no_trailing_underscore in Hk.
  assert (Hends : endswith (k ++ "_") "_" = true)
    by (apply endswith_suffix; now exists k).
  congruence.
Qed.

Lemma lookup_key_of_keyword (k : string) :
  iskeyword k = true -> lookup_key k = k.
Proof.
  intros Hk. apply lookup_key_plain. intros k0 ->.
  now rewrite keyword_not_escaped in Hk.
Qed.

(** X1. A key can be reached by some requested name exactly when it is
    not itself a keyword followed by an underscore. In particular a view
    whose only selected field is stored under such a key (for instance
    [class_]) rejects every attribute name. *)
Theorem escaped_key_unreachable (key : string) :
  ((exists name, lookup_key name = key) <-> ~ escaped_keyword key)
  /\ (forall (E : Expressions) (C : Context) (v : View) (e : Builder)
             (name : string),
      escaped_keyword key ->
      __getattr__ (select v [(key, e)]) name = Raise (unknown_attribute name)).
Proof.
  assert (Hnever : forall name, escaped_keyword key -> lookup_key name <> key).
  { intros name (k & -> & Hk) Hname.
    destruct (lookup_key_cases name) as [(k' & _ & Hk' & Hkey)|(Hplain & Hkey)].
    - rewrite Hkey in Hname. subst k'. now rewrite keyword_not_escaped in Hk'.
    - rewrite Hkey in Hname. rewrite (Hplain k Hname) in Hk. discriminate. }
  split.
  - split.
    + intros [name Hname] Hesc. exact (Hnever name Hesc Hname).
    + intros Hplain. exists key. apply lookup_key_plain.
      intros k Hk. destruct (iskeyword k) eqn:Hkw; [|reflexivity].
      elim Hplain. now exists k.
  - intros E C v e name Hesc. unfold __getattr__, select. cbn [_fields].
    change (immutabledict [(key, e)]) with [(key, e)].
    cbn [truthy dict_get bind].
    destruct (String.eqb_spec key (lookup_key name)) as [Heq|Hne];
      [|reflexivity].
    elim (Hnever name Hesc). now symmetry.
Qed.

(** X2. The key computation strips at most one underscore and is stable:
    the requested name is the key or the key followed by one underscore,
    and computing the key of a key changes nothing. *)
Theorem lookup_key_idempotent (name : string) :
  lookup_key (lookup_key name) = lookup_key name
  /\ (name = lookup_key name \/ name = lookup_key name ++ "_").
Proof.
  destruct (lookup_key_cases name) as [(k & Hname & Hk & Hkey)|(_ & Hkey)].
  - rewrite Hkey. split; [now apply lookup_key_of_keyword | now right].
  - rewrite Hkey. split; [exact Hkey | now left].
Qed.

(* ================================================================= *)
(** ** More about select and where *)

Lemma dict_get_some_in {V : Type} (d : dict V) (k : string) (v : V) :
  dict_get d k = Some v -> In (k, v) d.
Proof.
  induction d as [|[k' v'] rest IH]; simpl; [discriminate|].
  destruct (String.eqb_spec k' k) as [->|Hne].
  - intros [= ->]. now left.
  - intros H. right. auto.
Qed.

Lemma dict_get_key_some {V : Type} (d : dict V) (k : string) :
  In k (dict_keys d) -> exists v, dict_get d k = Some v.
Proof.
  induction d as [|[k' v'] rest IH]; simpl; [contradiction|].
  destruct (String.eqb_spec k' k) as [->|Hne].
  - intros _. now exists v'.
  - intros [H|H]; [contradiction | auto].
Qed.

Lemma dict_get_unique {V : Type} (d : dict V) (k : string) (v : V) :
  NoDup (dict_keys d) -> In (k, v) d -> dict_get d k = Some v.
Proof.
  induction d as [|[k' v'] rest IH]; simpl; [contradiction|].
  intros Hnd Hin. inversion Hnd as [|? ? Hfresh Hrest]; subst.
  destruct (String.eqb_spec k' k) as [->|Hne].
  - destruct Hin as [[= ->]|Hin]; [reflexivity|].
    elim Hfresh. change k with (fst (k, v)). now apply in_map.
  - destruct Hin as [[= -> _]|Hin]; [contradiction | auto].
Qed.

Section MoreComposition.

Context {E : Expressions} {C : Context}.

(** A call of [where] that returns has checked every constraint. *)
Lemma where_ok_inv (v v' : View) (constraints : list Builder) :
  where_ v constraints = Ok v' ->
  Forall (fun c => return_type c = Boolean) constraints
  /\ v' = View_init (_structdef_url v) (_root_builder v) (_context v)
                    (_fields v) (_constraints v ++ constraints)%list.
Proof.
  intros Hok.
  destruct (first_non_boolean constraints)
    as [Hall|(before & c & after & -> & Hbefore & Hc)].
  - rewrite (where_boolean v constraints Hall) in Hok.
    injection Hok as <-. auto.
  - rewrite (where_first v before after c Hbefore Hc) in Hok. discriminate.
Qed.

(** X3. [where] with no constraint returns a view equal to the
    receiver, and two calls in a row are one call with both argument
    lists, in the view returned and in the exception raised. *)
Theorem where_calls_compose (v : View) :
  where_ v [] = Ok v
  /\ (forall cs1 cs2 : list Builder,
      (v1 <- where_ v cs1 ;; where_ v1 cs2) = where_ v (cs1 ++ cs2)%list).
Proof.
  split.
  - destruct v as [url root ctx fields cs]. unfold where_. cbn.
    now rewrite app_nil_r.
  - intros cs1 cs2. apply where_where.
Qed.

(** What [where] hands over when it returns, as one step. *)
Lemma where_step_frame (v v' : View) (cs : list Builder) :
  where_ v cs = Ok v' ->
  _structdef_url v' = _structdef_url v
  /\ _root_builder v' = _root_builder v
  /\ _context v' = _context v
  /\ _constraints v' = (_constraints v ++ cs)%list
  /\ Forall (fun c => return_type c = Boolean) cs.
Proof.
  intros Hok. destruct (where_ok_inv v v' cs Hok) as [Hall ->].
  repeat split. exact Hall.
Qed.

Lemma derived_frame (v0 v : View) :
  derived v0 v ->
  _structdef_url v = _structdef_url v0
  /\ _root_builder v = _root_builder v0
  /\ _context v = _context v0
  /\ exists added,
      _constraints v = (_constraints v0 ++ added)%list
      /\ Forall (fun c => return_type c = Boolean) added.
Proof.
  intros Hd. induction Hd as [|v fields _ IH|v v' cs _ IH Hwhere];
    [repeat split; exists []; split; [now rewrite app_nil_r | constructor]
    | exact IH |].
  destruct IH as (Hurl & Hroot & Hctx & added & Hcs & Hall).
  destruct (where_step_frame v v' cs Hwhere)
    as (Hurl' & Hroot' & Hctx' & Hcs' & Hall').
  rewrite Hurl', Hroot', Hctx', Hcs', Hcs.
  repeat split; try assumption.
  exists (added ++ cs)%list.
  split; [now rewrite app_assoc | now apply Forall_app].
Qed.

(** X4. Every view reached from [v0] by [select] and [where] calls has
    the URL, root builder and context of [v0], and its constraints are
    those of [v0] followed by constraints that are all boolean. *)
Theorem derived_keeps_root_and_boolean (v0 v : View) :
  derived v0 v ->
  _structdef_url v = _structdef_url v0
  /\ _root_builder v = _root_builder v0
  /\ _context v = _context v0
  /\ exists added,
      _constraints v = (_constraints v0 ++ added)%list
      /\ Forall (fun c => return_type c = Boolean) added.
Proof.
  induction 1 as [|v fields _ IH|v v' cs _ IH Hwhere].
  - repeat split. exists []. split; [now rewrite app_nil_r | constructor].
  - exact IH.
  - destruct IH as (Hurl & Hroot & Hctx & added & Hcs & Hall).
    destruct (where_ok_inv v v' cs Hwhere) as [Hnew ->].
    cbn [_structdef_url _root_builder _context _constraints].
    repeat split; try assumption.
    exists (added ++ cs)%list. split.
    + now rewrite Hcs, app_assoc.
    + now apply Forall_app.
Qed.

Lemma where_select_swap (v : View) (f : dict Builder) (cs : list Builder) :
  (v1 <- where_ v cs ;; Ok (select v1 f)) = where_ (select v f) cs.
Proof.
  destruct (first_non_boolean cs)
    as [Hall|(before & c & after & -> & Hbefore & Hc)].
  - now rewrite !where_boolean.
  - now rewrite !(where_first _ before after c Hbefore Hc).
Qed.

(** X5. [select] and [where] commute: constraining and then selecting
    gives what selecting and then constraining gives, a view or the same
    exception. *)
Theorem select_where_commute
    (v : View) (f : dict Builder) (cs : list Builder) :
  (v1 <- where_ v cs ;; Ok (select v1 f)) = where_ (select v f) cs.
Proof.
  destruct (first_non_boolean cs)
    as [Hall|(before & c & after & -> & Hbefore & Hc)].
  - rewrite (where_boolean v cs Hall), (where_boolean (select v f) cs Hall).
    reflexivity.
  - rewrite (where_first v before after c Hbefore Hc).
    rewrite (where_first (select v f) before after c Hbefore Hc).
    reflexivity.
Qed.

(** X6. A later [select] replaces an earlier one, next to it or across
    a [where]: nothing of the first mapping survives. *)
Theorem select_last_wins
    (v : View) (f g : dict Builder) (cs : list Builder) :
  select (select v f) g = select v g
  /\ (v1 <- where_ (select v f) cs ;; Ok (select v1 g))
     = where_ (select v g) cs.
Proof.
  split; [reflexivity|].
  now rewrite (where_select_swap (select v f) g cs).
Qed.

End MoreComposition.

(* ================================================================= *)
(** ** Selection, resolution and the directory together *)

Lemma not_escaped_plain (key : string) :
  ~ escaped_keyword key -> lookup_key key = key.
Proof.
  intros Hplain. apply lookup_key_plain. intros k Hk.
  destruct (iskeyword k) eqn:Hkw; [|reflexivity].
  elim Hplain. now exists k.
Qed.

Section SelectionAndDirectory.

Context {E : Expressions} {C : Context} {I : Introspection}.

Lemma getattr_scoped (v : View) (name : string) :
  _fields v <> [] ->
  __getattr__ v name
  = match dict_get (_fields v) (lookup_key name) with
    | Some e => Ok e
    | None => Raise (unknown_attribute name)
    end.
Proof.
  intros Hfields. unfold __getattr__.
  now rewrite (truthy_nonempty _ Hfields).
Qed.

(** X7. Selecting a mapping and reading it back: the stored fields are
    the mapping, every selected name that is not an escaped keyword
    resolves to the expression selected for it, and the directory lists
    the selected names in their order before the class's own names. *)
Theorem select_round_trip (v : View) (f : dict Builder) :
  NoDup (dict_keys f) ->
  get_select_expressions (select v f) = f
  /\ (forall k e, In (k, e) f -> ~ escaped_keyword k ->
                  __getattr__ (select v f) k = Ok e)
  /\ (f <> [] ->
      __dir__ (select v f) = (dict_keys f ++ dir_type_View)%list).
Proof.
  intros Hnd.
  assert (Hstored : _fields (select v f) = f)
    by (cbn [select _fields]; now apply immutabledict_unique).
  split; [exact Hstored | split].
  - intros k e Hin Hplain.
    assert (Hsome : _fields (select v f) <> [])
      by (rewrite Hstored; intros ->; contradiction).
    rewrite (getattr_scoped _ k Hsome), Hstored, (not_escaped_plain k Hplain).
    now rewrite (dict_get_unique f k e Hnd Hin).
  - intros Hsome. unfold __dir__. rewrite Hstored.
    now rewrite (truthy_nonempty _ Hsome).
Qed.

(** X8. On a view with selected fields the directory and attribute
    resolution agree: whatever resolves was found under a key the
    directory lists, and every listed field name that is not an escaped
    keyword resolves. *)
Theorem dir_agrees_with_getattr (v : View) (name : string) :
  _fields v <> [] ->
  (forall e, __getattr__ v name = Ok e ->
             In (lookup_key name) (__dir__ v)
             /\ In (lookup_key name, e) (_fields v))
  /\ (In name (dict_keys (_fields v)) -> ~ escaped_keyword name ->
      exists e, __getattr__ v name = Ok e /\ In (name, e) (_fields v)).
Proof.
  intros Hsome. rewrite (getattr_scoped v name Hsome). split.
  - intros e He.
    destruct (dict_get (_fields v) (lookup_key name)) as [e'|] eqn:Hget;
      [|discriminate].
    injection He as ->. apply dict_get_some_in in Hget. split; [|exact Hget].
    unfold __dir__. rewrite (truthy_nonempty _ Hsome).
    apply in_or_app. left. unfold dict_keys.
    change (lookup_key name) with (fst (lookup_key name, e)).
    now apply in_map.
  - intros Hin Hplain. rewrite (not_escaped_plain name Hplain).
    destruct (dict_get_key_some (_fields v) name Hin) as [e He].
    exists e. rewrite He. split; [reflexivity | now apply dict_get_some_in].
Qed.


End SelectionAndDirectory.

(* ================================================================= *)
(** ** More about patient-id resolution and the factory *)

Section FactoryAndPatientId.

Context {E : Expressions} {C : Context} {U : Utils} {V : Evaluation}.

Lemma patient_id_reads (v v' : View) :
  _structdef_url v' = _structdef_url v ->
  _root_builder v' = _root_builder v ->
  _context v' = _context v ->
  get_patient_id_expression v' = get_patient_id_expression v.
Proof.
  intros Hurl Hroot Hctx. unfold get_patient_id_expression.
  now rewrite Hurl, Hroot, Hctx.
Qed.

(** X10. Patient-id resolution does not look at the selection or the
    constraints: every view reached from [v0] by [select] and [where]
    gets the answer that [v0] gets. *)
Theorem patient_id_ignores_composition (v0 v : View) :
  derived v0 v ->
  get_patient_id_expression v = get_patient_id_expression v0.
Proof.
  intros Hd. destruct (derived_frame v0 v Hd) as (Hurl & Hroot & Hctx & _).
  now apply patient_id_reads.
Qed.

(** X11. The result None has two causes only: the structure definition
    resolved and either it is Patient and the root builder's [id]
    attribute is None, or it is not Patient and lists no
    patient-reference path. A listed path never ends in None. *)
Theorem patient_id_none_only_if (v : View) :
  get_patient_id_expression v = Ok None ->
  exists structdef,
    get_structure_definition (_context v) (_structdef_url v) = Ok structdef
    /\ ((structdef_id_value structdef = "Patient"
         /\ Builder_getattr (_root_builder v) "id" = Ok None)
        \/ (structdef_id_value structdef <> "Patient"
            /\ get_patient_reference_element_paths structdef = [])).
Proof.
  unfold get_patient_id_expression.
  destruct (get_structure_definition (_context v) (_structdef_url v))
    as [structdef|ex]; cbn [bind]; [|discriminate].
  intros Hnone. exists structdef. split; [reflexivity|].
  destruct (String.eqb_spec (structdef_id_value structdef) "Patient")
    as [Hid|Hid].
  - left. auto.
  - right. split; [exact Hid|].
    destruct (get_patient_reference_element_paths structdef)
      as [|first others]; [reflexivity|].
    destruct (Builder___getattr__ (_root_builder v)
                (if str_in "subject" (first :: others)
                 then "subject" else first)) as [field|ex];
      cbn [bind] in Hnone; [|discriminate].
    destruct (idFor field "patient"); cbn [bind] in Hnone; discriminate.
Qed.

(** X12. The factory's two methods succeed and fail together with the
    structure-definition lookup: a resolved definition gives the builder
    rooted at it and a view with that builder, the given URL, the
    factory's context, no field and no constraint; a failed lookup is
    the failure of both methods. *)
Theorem view_of_follows_lookup (factory : Views) (url : string) :
  (forall structdef,
      get_structure_definition (Views_context factory) url = Ok structdef ->
      expression_for factory url
      = Ok (root_message_builder (Views_context factory) structdef
                                 (Views_handler factory))
      /\ view_of factory url
         = Ok (View_init url
                 (root_message_builder (Views_context factory) structdef
                                       (Views_handler factory))
                 (Views_context factory) [] []))
  /\ (forall ex,
      get_structure_definition (Views_context factory) url = Raise ex ->
      expression_for factory url = Raise ex
      /\ view_of factory url = Raise ex)
  /\ (forall v,
      view_of factory url = Ok v ->
      expression_for factory url = Ok (_root_builder v)
      /\ get_structdef_url v = url
      /\ get_fhir_path_context v = Views_context factory
      /\ get_select_expressions v = []
      /\ get_constraint_expressions v = []).
Proof.
  unfold view_of, expression_for. split; [|split].
  - intros structdef Hdef. now rewrite Hdef.
  - intros ex Hdef. now rewrite Hdef.
  - intros v.
    destruct (get_structure_definition (Views_context factory) url)
      as [structdef|ex]; cbn [bind]; [|discriminate].
    intros [= <-]. repeat split.
Qed.

(** X13. Every view reached from a view the factory made is well
    formed: its structure definition resolves in its own context, its
    root builder is the builder rooted at that definition, and all its
    constraints are boolean. *)
Theorem factory_views_well_formed
    (factory : Views) (url : string) (v0 v : View) :
  view_of factory url = Ok v0 ->
  derived v0 v ->
  (exists structdef,
      get_structure_definition (_context v) (_structdef_url v) = Ok structdef
      /\ _root_builder v
         = root_message_builder (_context v) structdef (Views_handler factory))
  /\ Forall (fun c => return_type c = Boolean) (_constraints v).
Proof.
  intros Hmade Hd.
  destruct (derived_frame v0 v Hd)
    as (Hurl & Hroot & Hctx & added & Hcs & Hall).
  unfold view_of, expression_for in Hmade.
  destruct (get_structure_definition (Views_context factory) url)
    as [structdef|ex] eqn:Hdef; cbn [bind] in Hmade; [|discriminate].
  injection Hmade as <-.
  cbn [_structdef_url _root_builder _context _constraints] in *.
  split.
  - exists structdef. rewrite Hurl, Hroot, Hctx. auto.
  - rewrite Hcs. exact Hall.
Qed.

(** X14. A view without selected field and without constraint, such as
    every view the factory makes, renders with an empty select clause:
    [View<], the URL, [.select(], two line feeds, [)>]. *)
Theorem str_of_root_view (v : View) :
  (_fields v = [] -> _constraints v = [] ->
   __str__ v = "View<" ++ _structdef_url v ++ ".select(" ++ LF ++ LF ++ ")>")
  /\ (forall (factory : Views) (url : string),
      view_of factory url = Ok v ->
      __str__ v = "View<" ++ url ++ ".select(" ++ LF ++ LF ++ ")>").
Proof.
  assert (Hempty : _fields v = [] -> _constraints v = [] ->
                   __str__ v = "View<" ++ _structdef_url v ++ ".select("
                                 ++ LF ++ LF ++ ")>").
  { intros Hf Hc. rewrite (str_without_constraints v Hc), Hf. reflexivity. }
  split; [exact Hempty|].
  intros factory url Hmade. unfold view_of in Hmade.
  destruct (expression_for factory url); cbn [bind] in Hmade; [|discriminate].
  injection Hmade as <-. now apply Hempty.
Qed.

End FactoryAndPatientId.

(* ================================================================= *)
(** ** Resolution under constraints and under either spelling *)

Section ResolutionFrame.

Context {E : Expressions} {C : Context} {I : Introspection}.

(** X15. Adding constraints changes neither what an attribute name
    resolves to nor what the directory lists. *)
Theorem where_keeps_resolution
    (v v' : View) (constraints : list Builder) (name : string) :
  where_ v constraints = Ok v' ->
  __getattr__ v' name = __getattr__ v name
  /\ __dir__ v' = __dir__ v
  /\ get_select_expressions v' = get_select_expressions v.
Proof.
  intros Hok. apply where_ok_inv in Hok. destruct Hok as [_ ->].
  repeat split.
Qed.

(** X16. A keyword field resolves alike under both spellings: with or
    without the trailing underscore the same key is looked up, so one
    spelling yields an expression exactly when the other yields it;
    the spellings differ only in the name an unknown-attribute error
    reports. *)
Theorem keyword_spellings_agree
    (v : View) (k : string) (e : Builder) :
  iskeyword k = true ->
  (__getattr__ v (k ++ "_") = Ok e <-> __getattr__ v k = Ok e)
  /\ (forall ex, __getattr__ v k = Raise ex ->
                 exists ex', __getattr__ v (k ++ "_") = Raise ex').
Proof.
  intros Hk. unfold __getattr__.
  rewrite (lookup_key_stripped k Hk), (lookup_key_of_keyword k Hk).
  destruct (if truthy (_fields v)
            then Ok (dict_get (_fields v) k)
            else Builder_getattr (_root_builder v) k)
    as [[found|]|ex0]; cbn [bind].
  - split; [tauto | discriminate].
  - split; [split; discriminate | eauto].
  - split; [tauto | eauto].
Qed.

End ResolutionFrame.

(* ================================================================= *)
(** ** The further theorems at work on the small instance *)

Lemma not_escaped_by_end (key : string) :
  endswith key "_" = false -> ~ escaped_keyword key.
Proof.
  intros Hend (k & Hk & _).
  assert (endswith key "_" = true) by (apply endswith_suffix; now exists k).
  congruence.
Qed.

Lemma demo_composed_derived : derived Demo.pat DemoViews.composed.
Proof.
  apply (derived_where Demo.pat DemoViews.two_fields DemoViews.composed
           [Demo.active; Demo.has_name]).
  - apply derived_select. apply derived_root.
  - reflexivity.
Qed.

Lemma demo_two_fields_unique : NoDup ["name"; "active"].
Proof.
  constructor.
  - simpl. intros [H|H]; [discriminate H | exact H].
  - constructor; [simpl; auto | constructor].
Qed.

(** The view whose only field is stored under [class_] rejects both
    spellings. *)
Lemma escaped_key_unreachable_demo :
  __getattr__ DemoViews.escaped "class_" = Raise (unknown_attribute "class_")
  /\ __getattr__ DemoViews.escaped "class" = Raise (unknown_attribute "class")
  /\ ~ (exists name, lookup_key name = "class_").
Proof.
  assert (Hesc : escaped_keyword "class_")
    by (exists "class"; split; reflexivity).
  pose proof (escaped_key_unreachable "class_") as [Hiff Hnever].
  split; [|split].
  - apply (Hnever Demo.expressions Demo.context Demo.pat Demo.name "class_").
    exact Hesc.
  - apply (Hnever Demo.expressions Demo.context Demo.pat Demo.name "class").
    exact Hesc.
  - intros Hreach. apply Hiff in Hreach. exact (Hreach Hesc).
Defined.

Lemma derived_keeps_root_and_boolean_demo :
  _root_builder DemoViews.composed = Demo.Root "Patient"
  /\ exists added,
      _constraints DemoViews.composed = added
      /\ Forall (fun c => Demo.type_of c = Demo.TBoolean) added.
Proof.
  destruct (derived_keeps_root_and_boolean Demo.pat DemoViews.composed
              demo_composed_derived)
    as (_ & Hroot & _ & added & Hcs & Hall).
  split; [exact Hroot|]. exists added. split; [exact Hcs | exact Hall].
Defined.

Lemma select_round_trip_demo :
  get_select_expressions DemoViews.two_fields
  = [("name", Demo.name); ("active", Demo.active)]
  /\ __getattr__ DemoViews.two_fields "active" = Ok Demo.active
  /\ __dir__ (I := Demo.introspection) DemoViews.two_fields
     = ["name"; "active"; "select"; "where"; "get_patient_id_expression"].
Proof.
  destruct (select_round_trip (I := Demo.introspection) Demo.pat
              [("name", Demo.name); ("active", Demo.active)]
              demo_two_fields_unique) as (Hstored & Hget & Hdir).
  split; [exact Hstored | split].
  - apply Hget.
    + simpl. auto.
    + apply not_escaped_by_end. reflexivity.
  - apply Hdir. discriminate.
Defined.

Lemma dir_agrees_with_getattr_demo :
  In "name" (__dir__ (I := Demo.introspection) DemoViews.two_fields)
  /\ exists e, __getattr__ DemoViews.two_fields "name" = Ok e
               /\ In ("name", e) (_fields DemoViews.two_fields).
Proof.
  assert (Hsome : _fields DemoViews.two_fields <> []) by discriminate.
  destruct (dir_agrees_with_getattr (I := Demo.introspection)
              DemoViews.two_fields "name" Hsome) as [Hlisted Hresolves].
  split.
  - apply (Hlisted Demo.name). reflexivity.
  - apply Hresolves.
    + simpl. auto.
    + apply not_escaped_by_end. reflexivity.
Defined.


Lemma patient_id_ignores_composition_demo :
  get_patient_id_expression (U := Demo.utils) DemoViews.composed
  = get_patient_id_expression (U := Demo.utils) Demo.pat.
Proof.
  apply (patient_id_ignores_composition (U := Demo.utils)
           Demo.pat DemoViews.composed demo_composed_derived).
Defined.

Lemma patient_id_none_only_if_demo :
  exists structdef,
    get_structure_definition (_context Demo.org) (_structdef_url Demo.org)
    = Ok structdef
    /\ ((structdef_id_value structdef = "Patient"
         /\ Builder_getattr (_root_builder Demo.org) "id" = Ok None)
        \/ (structdef_id_value structdef <> "Patient"
            /\ get_patient_reference_element_paths (Utils := Demo.utils)
                 structdef = [])).
Proof.
  apply (patient_id_none_only_if (U := Demo.utils) Demo.org). reflexivity.
Defined.

Lemma view_of_follows_lookup_demo :
  view_of Demo.views "Patient" = Ok Demo.pat
  /\ view_of Demo.views "Nope"
     = Raise (Exc (OtherException "KeyError") [ArgStr "Nope"])
  /\ expression_for Demo.views "Patient" = Ok (_root_builder Demo.pat).
Proof.
  destruct (view_of_follows_lookup Demo.views "Patient")
    as (Hfound & _ & Hmade).
  destruct (view_of_follows_lookup Demo.views "Nope") as (_ & Hmissing & _).
  split; [|split].
  - apply (Hfound "Patient"). reflexivity.
  - apply (Hmissing (Exc (OtherException "KeyError") [ArgStr "Nope"])).
    reflexivity.
  - apply (Hmade Demo.pat). reflexivity.
Defined.

Lemma factory_views_well_formed_demo :
  (exists structdef,
      get_structure_definition (_context DemoViews.composed)
                               (_structdef_url DemoViews.composed)
      = Ok structdef
      /\ _root_builder DemoViews.composed
         = root_message_builder (_context DemoViews.composed) structdef
                                (Views_handler Demo.views))
  /\ Forall (fun c => return_type c = Boolean)
            (_constraints DemoViews.composed).
Proof.
  apply (factory_views_well_formed Demo.views "Patient"
           Demo.pat DemoViews.composed).
  - reflexivity.
  - exact demo_composed_derived.
Defined.

Lemma str_of_root_view_demo :
  __str__ Demo.obs = "View<Observation.select(" ++ LF ++ LF ++ ")>".
Proof.
  destruct (str_of_root_view (V := Demo.evaluation) Demo.obs) as [_ Hmade].
  apply (Hmade Demo.views "Observation"). reflexivity.
Defined.

Lemma where_keeps_resolution_demo :
  __getattr__ DemoViews.composed "name"
  = __getattr__ DemoViews.two_fields "name"
  /\ __dir__ (I := Demo.introspection) DemoViews.composed
     = __dir__ (I := Demo.introspection) DemoViews.two_fields
  /\ get_select_expressions DemoViews.composed
     = get_select_expressions DemoViews.two_fields.
Proof.
  apply (where_keeps_resolution (I := Demo.introspection)
           DemoViews.two_fields DemoViews.composed
           [Demo.active; Demo.has_name] "name").
  reflexivity.
Defined.

Lemma keyword_spellings_agree_demo :
  __getattr__ Demo.pat "class_" = Ok (Demo.Field (Demo.Root "Patient") "class")
  <-> __getattr__ Demo.pat "class" = Ok (Demo.Field (Demo.Root "Patient") "class").
Proof.
  apply (keyword_spellings_agree Demo.pat "class"
           (Demo.Field (Demo.Root "Patient") "class")).
  reflexivity.
Defined.
